(** * Enterprise activation server: activation codes, the etcd record and
      the cached expiry

    A shallow embedding of [src/server/enterprise/server/api_server.go].

    Go values are modelled as follows.
    - A Go [string] and a [[]byte] are both a [string] (a list of bytes).
    - A Go [error] is [option string]: [None] is [nil], [Some m] is an error
      whose [Error()] text is [m].
    - A function with several results returns a tuple, in Go's order.
    - A pointer that may be [nil] is an [option].
    - A run-time panic is the [Panic] outcome.
    - [time.Now()] is an explicit argument [now].
    - The etcd key space is a [gmap] from keys to records. *)

From Stdlib Require Import ZArith Lia Bool DecimalString.
From stdpp Require Import base strings gmap list.

Local Open Scope string_scope.
Local Open Scope Z_scope.

(** ** Go basics *)

Definition error := option string.

Inductive outcome (A : Type) : Type :=
| Ret (a : A)
| Panic (msg : string).
Arguments Ret {A} a.
Arguments Panic {A} msg.

Definition nil_dereference : string :=
  "runtime error: invalid memory address or nil pointer dereference".

(** Two's complement wrap-around of a 64-bit signed integer. *)
Definition wrap64 (z : Z) : Z := (z + 2 ^ 63) mod 2 ^ 64 - 2 ^ 63.

(** ** Package time

    A [time.Time] without monotonic reading: the seconds elapsed since
    January 1, year 1 00:00:00 UTC and the nanoseconds within that second.
    Its zero value [time.Time{}] is that instant. Every time stored in the
    cache comes from [time.Unix(..).UTC()] or is [time.Time{}], so it carries
    neither a monotonic reading nor a location pointer, and Go's [==] on
    such values compares the two fields. *)
Module time.

Record Time : Type := mkTime { sec : Z; nsec : Z }.

Definition zero : Time := mkTime 0 0.

#[global] Instance Time_eq_dec : EqDecision Time.
Proof. solve_decision. Defined.

(** [t.IsZero()] *)
Definition IsZero (t : Time) : bool := (sec t =? 0) && (nsec t =? 0).

(** [t.After(u)]: [t] is strictly later than [u]. *)
Definition After (t u : Time) : bool :=
  (sec t >? sec u) || ((sec t =? sec u) && (nsec t >? nsec u)).

Definition unixToInternal : Z := 62135596800.

(** [time.Unix(sec, nsec).UTC()] *)
Definition Unix (s n : Z) : Time :=
  let '(s, n) :=
    if (n <? 0) || (n >=? 1000000000) then
      let q := Z.quot n 1000000000 in
      let s := wrap64 (s + q) in
      let n := n - q * 1000000000 in
      if n <? 0 then (wrap64 (s - 1), n + 1000000000) else (s, n)
    else (s, n) in
  mkTime (wrap64 (s + unixToInternal)) n.

(** [t.Unix()] *)
Definition ToUnix (t : Time) : Z := wrap64 (sec t - unixToInternal).

End time.

Abbreviation Time := time.Time.

(** ** Package types (protobuf well-known types) *)
Module types.

Record Timestamp : Type := mkTimestamp { Seconds : Z; Nanos : Z }.

#[global] Instance Timestamp_eq_dec : EqDecision Timestamp.
Proof. solve_decision. Defined.

(** 0001-01-01T00:00:00Z and 10000-01-01T00:00:00Z in Unix seconds. *)
Definition minValidSeconds : Z := -62135596800.
Definition maxValidSeconds : Z := 253402300800.

Section WithFormat.
(** How [%v] prints a timestamp inside an error text. *)
Variable String : Timestamp -> string.

Definition validateTimestamp (ts : option Timestamp) : error :=
  match ts with
  | None => Some "timestamp: nil Timestamp"
  | Some ts =>
      if Seconds ts <? minValidSeconds then
        Some ("timestamp: " +:+ String ts +:+ " before 0001-01-01")
      else if Seconds ts >=? maxValidSeconds then
        Some ("timestamp: " +:+ String ts +:+ " after 10000-01-01")
      else if (Nanos ts <? 0) || (Nanos ts >=? 1000000000) then
        Some ("timestamp: " +:+ String ts +:+ ": nanos not in range [0, 1e9)")
      else None
  end.

(** [TimestampFromProto]: the time is returned even when the timestamp
    is invalid; a [nil] timestamp is treated like the empty one. *)
Definition TimestampFromProto (ts : option Timestamp) : Time * error :=
  let t := match ts with
           | None => time.Unix 0 0
           | Some ts => time.Unix (Seconds ts) (Nanos ts)
           end in
  (t, validateTimestamp ts).

(** [TimestampProto] *)
Definition TimestampProto (t : Time) : option Timestamp * error :=
  let ts := mkTimestamp (time.ToUnix t) (time.nsec t) in
  match validateTimestamp (Some ts) with
  | Some err => (None, Some err)
  | None => (Some ts, None)
  end.
End WithFormat.

End types.

Abbreviation Timestamp := types.Timestamp.

(** ** Package sync/atomic

    An [atomic.Value] holds an [interface{}]: nothing before the first
    [Store], then the last value stored. *)
Module atomic.

Inductive any : Type :=
| of_Time (t : Time)
| of_other (type_name : string).

Definition Value : Type := option any.

Definition Load (v : Value) : option any := v.
Definition Store (v : Value) (x : any) : Value := Some x.

(** The type assertion [x.(time.Time)] in its two-result form. *)
Definition assert_Time (x : option any) : Time * bool :=
  match x with
  | Some (of_Time t) => (t, true)
  | _ => (time.zero, false)
  end.

End atomic.

(** ** Messages of the enterprise API (package ec) *)

Record EnterpriseRecord : Type :=
  mkEnterpriseRecord { ActivationCode : string; Expires : option Timestamp }.

#[global] Instance EnterpriseRecord_eq_dec : EqDecision EnterpriseRecord.
Proof. solve_decision. Defined.

Record ActivateRequest : Type := mkActivateRequest { GetActivationCode : string }.
Record ActivateResponse : Type := mkActivateResponse { }.

Inductive State : Type := State_NONE | State_ACTIVE | State_EXPIRED.

Record GetStateResponse : Type := mkGetStateResponse { RespState : State }.

(** ** The libraries the server calls

    The decoders, the hash and the signature check of Go's standard library
    are taken as they are: each field is the function of that name, applied
    at the types the server uses it at. *)

Record rsa_PublicKey : Type := mkPublicKey { N : Z; E : Z }.

(** What [x509.ParsePKIXPublicKey] can return as its [interface{}]. *)
Inductive crypto_PublicKey : Type :=
| RSAKey (k : rsa_PublicKey)
| OtherKey.

Record activationCode : Type := mkActivationCode { Token : string; Signature : string }.
Record token : Type := mkToken { Expiry : string }.

Record Lib : Type := {
  (** [pem.Decode]: the bytes of the first block, [None] when there is none. *)
  pem_Decode : string -> option string;
  x509_ParsePKIXPublicKey : string -> crypto_PublicKey * error;
  (** [base64.StdEncoding.DecodeString] *)
  base64_DecodeString : string -> string * error;
  (** [json.Unmarshal(data, &p)] for [p] of type [*activationCode], pointing
      to an empty struct: the pointer afterwards and the error. The JSON
      literal [null] sets the pointer to [nil] and is no error. *)
  json_Unmarshal_activationCode : string -> option activationCode * error;
  (** [json.Unmarshal(data, &t)] for [t] an empty [token]: the struct
      afterwards and the error. *)
  json_Unmarshal_token : string -> token * error;
  sha256_Sum256 : string -> string;
  (** [rsa.VerifyPKCS1v15(pub, crypto.SHA256, hashed, sig)] *)
  rsa_VerifyPKCS1v15 : rsa_PublicKey -> string -> string -> error;
  (** [time.Parse(time.RFC3339, s)] *)
  time_Parse_RFC3339 : string -> Time * error;
  (** [%v] of a protobuf timestamp and of a [time.Duration]. *)
  Timestamp_String : Timestamp -> string;
  Duration_String : Z -> string;
}.

(** ** Constants *)

Definition enterprisePrefix : string := "/enterprise".

Definition publicKey : string :=
"-----BEGIN PUBLIC KEY-----
MIICIjANBgkqhkiG9w0BAQEFAAOCAg8AMIICCgKCAgEAoaPoEfv5RcVUbCuWNnOB
WtLHzcyQSe4SbtGGQom/X27iq/7s8dcebSsCd2cwYoyKihEQ5OlaghrhcxTTV5AN
39O6S0YnWjt/+4PWQQP3NpcEhqWj8RLPJtYq+JNrqlyjxBlca7vDcFSTa6iCqXay
iVD2OyTbWrD6KZ/YTSmSY8mY2qdYvHyp3Ue5ueH3rSkKRUjo4Jyjf59PntZD884P
yb9kC+weh/1KlbDQ4aV0U9p6DSBkW7dinOQj7a1/ikDoA9Nebnrkb1FF9Hr2+utO
We4e4yOViDzAP9hhQiBhOVR0F6wJF5i+NfuLit4tk5ViboogEZqIyuakTD6abSFg
UPqBTDDG0UsVqjnU5ysJ1DKQqALnOrxEKZoVXtH80/m7kgmeY3VDHCFt+WCSdaSq
1w8SoIpJAZPJpKlDjMxe+NqsX2qUODQ2KNkqfEqFtyUNZzfS9o9pEg/KJzDuDclM
oMQr1BG8vc3msX4UiGQPkohznwlCSGWf62IkSS6P8hQRCBKGRS5yGjmT3J+/chZw
Je46y8zNLV7t2pOL6UemdmDjTaMCt0YBc1FmG2eUipAWcHJWEHgQm2Yz6QjtBgvt
jFqnYeiDwdxU7CQD3oF9H+uVHqz8Jmmf9BxY9PhlMSUGPUsTpZ717ysL0UrBhQhW
xYp8vpeQ3by9WxPBE/WrxN8CAwEAAQ==
-----END PUBLIC KEY-----
".

(** [enterpriseTokenKey] is the constant key that maps to the enterprise
    token a user has given. *)
Definition enterpriseTokenKey : string := "token".

(** ** The collection layer over etcd (package col) *)
Module col.

(** Modelled from the spec: the collection type of [server/pkg/collection]
    is not part of the sources at hand. A collection is a namespace (its
    prefix) in the key-value store, and an item lives at one key under
    that namespace. *)
Record Collection : Type := mkCollection { prefix : string }.

(** Modelled from the spec: [NewCollection], of which the server uses the
    prefix alone. *)
Definition NewCollection (etcdPrefix : string) : Collection :=
  mkCollection etcdPrefix.

(** Modelled from the spec: the key of an item in the store, the item's
    key under the namespace of the collection. *)
Definition Path (c : Collection) (key : string) : string :=
  prefix c +:+ "/" +:+ key.

(** Modelled from the spec: the transaction handle of
    [server/pkg/collection]. It buffers the writes of the transaction
    body; nothing reaches the store before the commit. *)
Abbreviation STM := (gmap string EnterpriseRecord).

(** Modelled from the spec: [ReadWrite(stm).Put(key, val)], an
    unconditional write of [val] at the collection's [key]. *)
Definition Put (c : Collection) (stm : STM) (key : string)
    (val : EnterpriseRecord) : STM :=
  <[Path c key := val]> stm.

(** Modelled from the spec: [NewSTM] runs the transaction body once and
    commits its writes atomically. A body that fails aborts the
    transaction with the body's error. [commit] is the store's answer to
    the commit (a network or consensus failure, or [nil]); a failed
    commit writes nothing and is not retried. *)
Definition NewSTM (store : gmap string EnterpriseRecord) (commit : error)
    (apply : STM -> STM * error) : gmap string EnterpriseRecord * error :=
  let '(stm, err) := apply ∅ in
  match err with
  | Some e => (store, Some e)
  | None =>
      match commit with
      | Some e => (store, Some e)
      | None => (stm ∪ store, None)
      end
  end.

End col.

(** ** The server *)

Record apiServer : Type := mkApiServer {
  (** [enterpriseExpiry] is a cached timestamp, indicating when the current
      enterprise token will expire (or the zero time if there is none). *)
  enterpriseExpiry : atomic.Value;
  (** [enterpriseToken] is a collection containing at most one enterprise
      token. *)
  enterpriseToken : col.Collection;
}.

Definition with_enterpriseExpiry (a : apiServer) (v : atomic.Value) : apiServer :=
  mkApiServer v (enterpriseToken a).

(** [NewEnterpriseServer]. [dial] is the result of [etcd.New]. The watch
    goroutine it starts is [watchEnterpriseToken] below. *)
Definition NewEnterpriseServer (dial : error) (etcdAddress etcdPrefix : string)
    : option apiServer * error :=
  match dial with
  | Some err => (None, Some ("error constructing etcdClient: " +:+ err))
  | None =>
      let s := mkApiServer None (col.NewCollection etcdPrefix) in
      let s := with_enterpriseExpiry s
                 (atomic.Store (enterpriseExpiry s) (atomic.of_Time time.zero)) in
      (Some s, None)
  end.

Section Server.

Variable L : Lib.

(** [validateActivationCode] checks the validity of an activation code. *)
Definition validateActivationCode (now : Time) (code : string)
    : outcome (Time * error) :=
  (* Parse the public key. *)
  match pem_Decode L publicKey with
  | None => Ret (time.zero, Some "failed to pem decode public key")
  | Some block =>
  let '(pub, err) := x509_ParsePKIXPublicKey L block in
  match err with
  | Some e =>
      Ret (time.zero, Some ("failed to parse DER encoded public key: " +:+ e))
  | None =>
  match pub with
  | OtherKey => Ret (time.zero, Some "public key isn't an RSA key")
  | RSAKey rsaPub =>
  (* Decode the base64-encoded activation code *)
  let '(decodedActivationCode, err) := base64_DecodeString L code in
  match err with
  | Some _ => Ret (time.zero, Some "activation code is not base64 encoded")
  | None =>
  let '(activationCode, err) :=
    json_Unmarshal_activationCode L decodedActivationCode in
  match err with
  | Some _ => Ret (time.zero, Some "activation code is not valid JSON")
  | None =>
  match activationCode with
  | None => Panic nil_dereference
  | Some activationCode =>
  (* Decode the signature *)
  let '(decodedSignature, err) :=
    base64_DecodeString L (Signature activationCode) in
  match err with
  | Some _ => Ret (time.zero, Some "signature is not base64 encoded")
  | None =>
  (* Compute the sha256 checksum of the token *)
  let hashedToken := sha256_Sum256 L (Token activationCode) in
  (* Verify that the signature is valid *)
  match rsa_VerifyPKCS1v15 L rsaPub hashedToken decodedSignature with
  | Some _ => Ret (time.zero, Some "invalid signature in activation code")
  | None =>
  (* Unmarshal the token *)
  let '(token, err) := json_Unmarshal_token L (Token activationCode) in
  match err with
  | Some _ => Ret (time.zero, Some "token is not valid JSON")
  | None =>
  (* Parse the expiry *)
  let '(expiry, err) := time_Parse_RFC3339 L (Expiry token) in
  match err with
  | Some _ => Ret (time.zero, Some "expiry is not valid ISO 8601 string")
  | None =>
  (* Check that the activation code has not expired *)
  if time.After now expiry then
    Ret (time.zero, Some "the activation code has expired")
  else Ret (expiry, None)
  end end end end end end end end end end.

(** The body of the transaction in [Activate]. *)
Definition Activate_txn (a : apiServer) (req : ActivateRequest)
    (expiry : Time) (stm : col.STM) : col.STM * error :=
  let e := enterpriseToken a in
  let '(expiryProto, err) := types.TimestampProto (Timestamp_String L) expiry in
  match err with
  | Some err => (stm, Some err)
  | None =>
      (* blind write *)
      (col.Put e stm enterpriseTokenKey
         (mkEnterpriseRecord (GetActivationCode req) expiryProto),
       None)
  end.

(** [Activate] implements the Activate RPC. It runs on the server [a] and
    the store, and returns both with its results. *)
Definition Activate (now : Time) (commit : error)
    (a : apiServer) (store : gmap string EnterpriseRecord) (req : ActivateRequest)
    : outcome (option ActivateResponse * error
               * (apiServer * gmap string EnterpriseRecord)) :=
  (* Validate the activation code *)
  match validateActivationCode now (GetActivationCode req) with
  | Panic msg => Panic msg
  | Ret (expiry, err) =>
      match err with
      | Some err =>
          Ret (None, Some ("error validating activation code: " +:+ err),
               (a, store))
      | None =>
          let '(store', err) :=
            col.NewSTM store commit (Activate_txn a req expiry) in
          match err with
          | Some err => Ret (None, Some err, (a, store'))
          | None => Ret (Some mkActivateResponse, None, (a, store'))
          end
      end
  end.

(** [GetState] implements the GetState RPC. *)
Definition GetState (now : Time) (a : apiServer)
    : option GetStateResponse * error :=
  let '(expiry, ok) := atomic.assert_Time (atomic.Load (enterpriseExpiry a)) in
  if negb ok then
    (None, Some "could not retrieve enterprise expiration time")
  else if time.IsZero expiry then
    (Some (mkGetStateResponse State_NONE), None)
  else if time.After now expiry then
    (Some (mkGetStateResponse State_EXPIRED), None)
  else (Some (mkGetStateResponse State_ACTIVE), None).

End Server.

(** ** Change events of the store (package watch) *)
Module watch.

Inductive EventType : Type := EventPut | EventDelete | EventError.

(** Modelled from the spec: the event type of [server/pkg/watch] is not
    part of the sources at hand. An event is tagged with its kind and
    carries a key, a record and an error; [Value] is the record as
    [Unmarshal] decodes it, the empty record when the event carries none. *)
Record Event : Type := mkEvent {
  Key : string;
  Value : EnterpriseRecord;
  EvType : EventType;
  Err : error;
}.

(** Modelled from the spec: [ev.Unmarshal(&key, &record)] fills in the key
    and the record of the event. *)
Definition Unmarshal (ev : Event) : string * EnterpriseRecord :=
  (Key ev, Value ev).

(** The zero value of [ec.EnterpriseRecord], with a [nil] [Expires]. *)
Definition no_record : EnterpriseRecord := mkEnterpriseRecord "" None.

(** Modelled from the spec: what the change stream of the one record
    delivers. A [Put] and a [Delete] come with the key and the record, an
    [Error] with the failure alone. *)
Inductive change : Type :=
| Put (key : string) (record : EnterpriseRecord)
| Delete (key : string) (record : EnterpriseRecord)
| Error (err : error).

(** Modelled from the spec: the event that the watcher sends for a
    change. *)
Definition emit (c : change) : Event :=
  match c with
  | Put key record => mkEvent key record EventPut None
  | Delete key record => mkEvent key record EventDelete None
  | Error err => mkEvent "" no_record EventError err
  end.

(** One call of [ReadOnly(ctx).Watch()] and the life of its channel: the
    call fails, or it yields a watcher whose channel delivers [events] and
    is then closed ([closes]) or stays silent. *)
Inductive attempt : Type :=
| WatchFails (err : string)
| WatchOpens (events : list Event) (closes : bool).

(** Modelled from the spec: the same on the side of the store. *)
Inductive connection : Type :=
| Refused (err : string)
| Established (changes : list change) (closes : bool).

(** Modelled from the spec: what [Watch()] and the channel of the watcher
    give for a connection. *)
Definition attempt_of (c : connection) : attempt :=
  match c with
  | Refused err => WatchFails err
  | Established changes closes => WatchOpens (emit <$> changes) closes
  end.

End watch.

(** ** Retrying with back-off (package backoff) *)
Module backoff.

(** What an operation under retry has done by the end of an attempt: it
    has returned, or it is still waiting for its input. *)
Inductive run : Type :=
| Returned (err : error)
| Blocked.

(** What the retry loop does to the outside: a line in the log, a sleep. *)
Inductive effect : Type :=
| Log (line : string)
| Sleep (d : Z).

(** Where the retry loop is when the script of attempts is used up. *)
Inductive status : Type :=
| Stopped (err : error)
| Connecting
| Streaming.

(** Modelled from the spec: the wait by which a policy says that no more
    retries should be made. *)
Definition Stop : Z := -1.

(** Modelled from the spec: the back-off policy of [server/pkg/backoff] is
    not part of the sources at hand. The waits grow exponentially; a
    policy gives up once the time waited exceeds [MaxElapsedTime], and
    never when that is [0]. The random jitter is left out. *)
Record ExponentialBackOff : Type := mkBackOff {
  InitialInterval : Z;
  MaxElapsedTime : Z;
  currentInterval : Z;
  elapsed : Z;
}.

(** Modelled from the spec: [Reset] puts the policy back at its initial
    interval, with no time waited. *)
Definition Reset (b : ExponentialBackOff) : ExponentialBackOff :=
  mkBackOff (InitialInterval b) (MaxElapsedTime b) (InitialInterval b) 0.

(** Modelled from the spec: [NextBackOff] gives the next wait, or [Stop],
    and the policy afterwards. *)
Definition NextBackOff (b : ExponentialBackOff) : Z * ExponentialBackOff :=
  if negb (MaxElapsedTime b =? 0) && (elapsed b >? MaxElapsedTime b) then
    (Stop, b)
  else
    (currentInterval b,
     mkBackOff (InitialInterval b) (MaxElapsedTime b)
       (2 * currentInterval b) (elapsed b + currentInterval b)).

(** Modelled from the spec: a policy with a ceiling, half a second at
    first and fifteen minutes in all (in nanoseconds). *)
Definition NewExponentialBackOff : ExponentialBackOff :=
  mkBackOff 500000000 900000000000 500000000 0.

(** Modelled from the spec: unbounded exponential back-off, without a
    ceiling on the retries. *)
Definition NewInfiniteBackOff : ExponentialBackOff :=
  mkBackOff (InitialInterval NewExponentialBackOff) 0
    (currentInterval NewExponentialBackOff) 0.

Section Retry.
Context {S A : Type}.
Variable operation : S -> A -> S * run.
Variable notify : string -> Z -> list effect -> list effect * error.

(** Modelled from the spec: the loop of [RetryNotify]. An operation that
    returns no error ends the retrying; otherwise the policy is asked
    for the next wait, the failure is notified, the loop sleeps and
    runs the operation again. It stops early when the policy says
    [Stop] or the notification returns an error. *)
Fixpoint retry (b : ExponentialBackOff) (script : list A) (s : S)
    (tr : list effect) : S * list effect * status :=
  match script with
  | [] => (s, tr, Connecting)
  | att :: script =>
      match operation s att with
      | (s, Blocked) => (s, tr, Streaming)
      | (s, Returned None) => (s, tr, Stopped None)
      | (s, Returned (Some err)) =>
          let '(next, b) := NextBackOff b in
          if next =? Stop then (s, tr, Stopped (Some err))
          else
            match notify err next tr with
            | (tr, Some err) => (s, tr, Stopped (Some err))
            | (tr, None) => retry b script s (tr ++ [Sleep next])%list
            end
      end
  end.

(** Modelled from the spec: [RetryNotify] resets the policy and runs the
    loop. [script] gives what each attempt of the operation meets. *)
Definition RetryNotify (b : ExponentialBackOff) (script : list A) (s : S)
    : S * list effect * status :=
  retry (Reset b) script s [].
End Retry.

End backoff.

(** ** The watch on the enterprise token *)

(** How one turn of the [for] loop ends: with the next turn, or with a
    [return]. *)
Inductive flow : Type :=
| Next (a : apiServer)
| Return (a : apiServer) (err : error).

Section Watch.

Variable L : Lib.

(** The body of the loop for a received event: parse the event data and
    potentially update the cache. *)
Definition handle_event (a : apiServer) (ev : watch.Event) : flow :=
  let '(key, record) := watch.Unmarshal ev in
  let '(expiry, err) :=
    types.TimestampFromProto (Timestamp_String L) (Expires record) in
  match err with
  | Some err =>
      Return a (Some ("could not parse expiration timestamp: " +:+ err))
  | None =>
      match watch.EvType ev with
      | watch.EventPut =>
          Next (with_enterpriseExpiry a
                  (atomic.Store (enterpriseExpiry a) (atomic.of_Time expiry)))
      | watch.EventDelete =>
          let '(cachedExpiry, ok) :=
            atomic.assert_Time (atomic.Load (enterpriseExpiry a)) in
          if negb ok then
            Return a (Some "could not retrieve cached expiration time")
          else if decide (expiry = cachedExpiry) then
            (* unexpected, but we'll dutifully unset the expiration time
               if it does *)
            Next (with_enterpriseExpiry a
                    (atomic.Store (enterpriseExpiry a)
                       (atomic.of_Time time.zero)))
          else Next a
      | watch.EventError => Return a (watch.Err ev)
      end
  end.

(** The [for] loop over the watcher's channel. *)
Fixpoint watch_loop (a : apiServer) (events : list watch.Event)
    (closes : bool) : apiServer * backoff.run :=
  match events with
  | [] =>
      if closes then
        (a, backoff.Returned (Some "admin watch closed unexpectedly"))
      else (a, backoff.Blocked)
  | ev :: events =>
      match handle_event a ev with
      | Next a => watch_loop a events closes
      | Return a err => (a, backoff.Returned err)
      end
  end.

(** The operation that [watchEnterpriseToken] retries. *)
Definition watch_operation (a : apiServer) (att : watch.attempt)
    : apiServer * backoff.run :=
  match att with
  | watch.WatchFails err => (a, backoff.Returned (Some err))
  | watch.WatchOpens events closes => watch_loop a events closes
  end.

(** The notification of [watchEnterpriseToken]. *)
Definition watch_notify (err : string) (d : Z) (tr : list backoff.effect)
    : list backoff.effect * error :=
  ((tr ++ [backoff.Log ("error from activation check: " +:+ err +:+
                        "; retrying in " +:+ Duration_String L d)])%list,
   None).

Definition watchEnterpriseToken (a : apiServer) (script : list watch.attempt)
    : apiServer * list backoff.effect * backoff.status :=
  backoff.RetryNotify watch_operation watch_notify
    backoff.NewInfiniteBackOff script a.

End Watch.

(** ** The states a server goes through *)

Definition flow_server (f : flow) : apiServer :=
  match f with
  | Next a => a
  | Return a _ => a
  end.

Section Steps.

Variable L : Lib.

(** What changes the server and the store once the server is constructed:
    the watch goroutine handles an event, or an [Activate] call returns.
    [GetState] changes nothing. *)
Inductive server_step
  : apiServer * gmap string EnterpriseRecord ->
    apiServer * gmap string EnterpriseRecord -> Prop :=
| step_event a store ev :
    server_step (a, store) (flow_server (handle_event L a ev), store)
| step_Activate now commit a store req resp a' store' :
    Activate L now commit a store req = Ret (resp, (a', store')) ->
    server_step (a, store) (a', store').

(** The cache holds a [time.Time]. *)
Definition holds_time (a : apiServer) : Prop :=
  exists t, enterpriseExpiry a = Some (atomic.of_Time t).

End Steps.

(** The expiry of a record that decodes. *)
Definition decodes (L : Lib) (record : EnterpriseRecord) (expiry : Time) : Prop :=
  types.TimestampFromProto (Timestamp_String L) (Expires record) = (expiry, None).

(** ** A stub of the libraries

    Enough of each library function to run the server on a handful of
    activation codes: the decoders are tables over the strings below, and
    a signature is accepted when the digest is that of the token it
    names. *)
Module Demo.

Definition string_of_Z (z : Z) : string := NilZero.string_of_int (Z.to_int z).

Definition envelope_2030 : activationCode := mkActivationCode "token-2030" "MjAzMA==".
Definition envelope_far : activationCode := mkActivationCode "token-far" "ZmFy".

(** 2018-01-01T00:00:00Z, 2030-01-01T00:00:00Z and
    9999-12-31T23:59:59-01:00. *)
Definition t_2018 : Time := time.mkTime 63650361600 0.
Definition t_2030 : Time := time.mkTime 64029052800 0.
Definition t_far : Time := time.mkTime 315537901199 0.

Definition lib : Lib := {|
  pem_Decode s := if String.eqb s publicKey then Some "der" else None;
  x509_ParsePKIXPublicKey der :=
    if String.eqb der "der" then (RSAKey (mkPublicKey 3233 17), None)
    else (OtherKey, Some "asn1: syntax error");
  base64_DecodeString s :=
    if String.eqb s "Y29kZS0yMDMw" then ("code-2030", None)
    else if String.eqb s "Y29kZS1mYXI=" then ("code-far", None)
    else if String.eqb s "bnVsbA==" then ("null", None)
    else if String.eqb s "MjAzMA==" then ("2030", None)
  else if String.eqb s "ZmFy" then ("far", None)
    else ("", Some "illegal base64 data at input byte 0");
  json_Unmarshal_activationCode data :=
    if String.eqb data "code-2030" then (Some envelope_2030, None)
    else if String.eqb data "code-far" then (Some envelope_far, None)
    else if String.eqb data "null" then (None, None)
    else (Some (mkActivationCode "" ""), Some "invalid character");
  json_Unmarshal_token data :=
    if String.eqb data "token-2030" then (mkToken "2030-01-01T00:00:00Z", None)
    else if String.eqb data "token-far" then (mkToken "9999-12-31T23:59:59-01:00", None)
    else (mkToken "", Some "invalid character");
  sha256_Sum256 data := "sha256:" +:+ data;
  rsa_VerifyPKCS1v15 pub hashed sig :=
    if String.eqb hashed ("sha256:token-" +:+ sig) then None
    else Some "crypto/rsa: verification error";
  time_Parse_RFC3339 s :=
    if String.eqb s "2030-01-01T00:00:00Z" then (t_2030, None)
    else if String.eqb s "9999-12-31T23:59:59-01:00" then (t_far, None)
    else (time.zero, Some "parsing time: cannot parse");
  Timestamp_String ts :=
    "seconds:" +:+ string_of_Z (types.Seconds ts) +:+
    " nanos:" +:+ string_of_Z (types.Nanos ts);
  Duration_String d := string_of_Z d +:+ "ns";
|}.

Definition server : apiServer :=
  mkApiServer (Some (atomic.of_Time time.zero)) (col.NewCollection "/pach").

Definition ts_2030 : Timestamp := types.mkTimestamp 1893456000 0.
Definition record_2030 : EnterpriseRecord := mkEnterpriseRecord "Y29kZS0yMDMw" (Some ts_2030).

End Demo.

(** ** How far an activation code gets through the checks

    Each predicate says that the code passes the checks of
    [validateActivationCode] up to one point, and names what the code has
    computed by then. *)
Section Stages.

Variable L : Lib.

(** The embedded public key is a PEM block holding the RSA key [rsaPub]. *)
Definition key_loads (rsaPub : rsa_PublicKey) : Prop :=
  exists block,
    pem_Decode L publicKey = Some block /\
    x509_ParsePKIXPublicKey L block = (RSAKey rsaPub, None).

(** The code is base64 and decodes to [data]. *)
Definition decoded (code data : string) : Prop :=
  base64_DecodeString L code = (data, None).

(** The code is the base64 of the JSON envelope [ac]. *)
Definition enveloped (code : string) (ac : activationCode) : Prop :=
  exists data,
    decoded code data /\
    json_Unmarshal_activationCode L data = (Some ac, None).

(** The signature of the envelope is the base64 of [sig]. *)
Definition signature_decoded (ac : activationCode) (sig : string) : Prop :=
  base64_DecodeString L (Signature ac) = (sig, None).

(** [sig] is a PKCS1v15 signature of the SHA-256 digest of the token
    bytes, as they are in the envelope, under the key [rsaPub]. *)
Definition verifies (rsaPub : rsa_PublicKey) (ac : activationCode)
    (sig : string) : Prop :=
  rsa_VerifyPKCS1v15 L rsaPub (sha256_Sum256 L (Token ac)) sig = None.

(** The code is an envelope whose token is correctly signed. *)
Definition signed (rsaPub : rsa_PublicKey) (code : string)
    (ac : activationCode) : Prop :=
  enveloped code ac /\
  exists sig, signature_decoded ac sig /\ verifies rsaPub ac sig.

(** The signed token is the JSON of [tk]. *)
Definition carries (rsaPub : rsa_PublicKey) (code : string) (tk : token)
    : Prop :=
  exists ac,
    signed rsaPub code ac /\ json_Unmarshal_token L (Token ac) = (tk, None).

(** The signed token embeds the RFC3339 expiry [expiry]. *)
Definition embeds (rsaPub : rsa_PublicKey) (code : string) (expiry : Time)
    : Prop :=
  exists tk,
    carries rsaPub code tk /\
    time_Parse_RFC3339 L (Expiry tk) = (expiry, None).

End Stages.

(** A [Put] event whose record decodes. *)
Definition decodable_Put (L : Lib) (ev : watch.Event) : Prop :=
  watch.EvType ev = watch.EventPut /\ exists expiry, decodes L (watch.Value ev) expiry.

(** The policy has no ceiling on the time waited and its waits are positive. *)
Definition unbounded (b : backoff.ExponentialBackOff) : Prop :=
  backoff.MaxElapsedTime b = 0 /\ 0 < backoff.currentInterval b.

(** ** Further notions used by the properties *)

(** The range of a Go [int64], in which the seconds of a [time.Time] lie. *)
Definition int64 (z : Z) : Prop := - 2 ^ 63 <= z < 2 ^ 63.

(** A connection that comes to an end: it is refused, or the store closes
    its channel. *)
Definition ends (c : watch.connection) : bool :=
  match c with
  | watch.Refused _ => true
  | watch.Established _ closes => closes
  end.

(** The key at which the server keeps its record in the store. *)
Definition token_path (a : apiServer) : string :=
  col.Path (enterpriseToken a) enterpriseTokenKey.

(** The stub of the libraries with a PEM decoder that finds no block. *)
Definition Demo_no_key : Lib := {|
  pem_Decode s := None;
  x509_ParsePKIXPublicKey := x509_ParsePKIXPublicKey Demo.lib;
  base64_DecodeString := base64_DecodeString Demo.lib;
  json_Unmarshal_activationCode := json_Unmarshal_activationCode Demo.lib;
  json_Unmarshal_token := json_Unmarshal_token Demo.lib;
  sha256_Sum256 := sha256_Sum256 Demo.lib;
  rsa_VerifyPKCS1v15 := rsa_VerifyPKCS1v15 Demo.lib;
  time_Parse_RFC3339 := time_Parse_RFC3339 Demo.lib;
  Timestamp_String := Timestamp_String Demo.lib;
  Duration_String := Duration_String Demo.lib;
|}.

(** * Properties *)

(** ** Comparing times *)

Lemma After_irrefl (t : Time) : time.After t t = false.
Proof.
  unfold time.After.
  rewrite orb_false_iff, andb_false_iff. split; [|right]; lia.
Qed.

Lemma After_asym (t u : Time) : time.After t u = true -> time.After u t = false.
Proof.
  unfold time.After. intros H.
  apply orb_true_iff in H. rewrite orb_false_iff, andb_false_iff.
  destruct H as [H|H]; [|apply andb_true_iff in H as [H1 H2]]; lia.
Qed.

Lemma IsZero_zero : time.IsZero time.zero = true.
Proof. reflexivity. Qed.

(** ** GetState *)

(** [GetState] on a cache that holds a time. *)
Lemma GetState_holds_time (now : Time) (a : apiServer) (t : Time) :
  enterpriseExpiry a = Some (atomic.of_Time t) ->
  GetState now a =
    (Some (mkGetStateResponse
             (if time.IsZero t then State_NONE
              else if time.After now t then State_EXPIRED
              else State_ACTIVE)), None).
Proof.
  intros Hc. unfold GetState, atomic.Load. rewrite Hc. simpl.
  destruct (time.IsZero t); [reflexivity|].
  destruct (time.After now t); reflexivity.
Qed.

(** C1, as stated, fails: a cached expiry equal to the current time is not
    after the current time, yet [GetState] answers ACTIVE for it. *)
Lemma GetState_expiry_now_not_EXPIRED :
  ~ (forall (now : Time) (a : apiServer) (t : Time),
       enterpriseExpiry a = Some (atomic.of_Time t) ->
       time.IsZero t = false ->
       GetState now a =
         (Some (mkGetStateResponse
                  (if time.After t now then State_ACTIVE else State_EXPIRED)),
          None)).
Proof.
  intros H.
  specialize (H Demo.t_2030
                (with_enterpriseExpiry Demo.server (Some (atomic.of_Time Demo.t_2030)))
                Demo.t_2030 eq_refl eq_refl).
  vm_compute in H. discriminate H.
Qed.

(** C1, amended: for every cached non-zero expiry [t], [GetState] returns
    EXPIRED when the current time is strictly after [t] and ACTIVE otherwise;
    an expiry exactly equal to the current time is ACTIVE. *)
Theorem GetState_expiry (now : Time) (a : apiServer) (t : Time) :
  enterpriseExpiry a = Some (atomic.of_Time t) ->
  time.IsZero t = false ->
  GetState now a =
    (Some (mkGetStateResponse
             (if time.After now t then State_EXPIRED else State_ACTIVE)), None)
  /\ (time.After t now = true ->
      GetState now a = (Some (mkGetStateResponse State_ACTIVE), None))
  /\ (t = now ->
      GetState now a = (Some (mkGetStateResponse State_ACTIVE), None)).
Proof.
  intros Hc Hz.
  pose proof (GetState_holds_time now a t Hc) as HG. rewrite Hz in HG.
  split; [exact HG|]. split.
  - intros Hlater. rewrite HG, (After_asym _ _ Hlater). reflexivity.
  - intros ->. rewrite HG, After_irrefl. reflexivity.
Qed.

Lemma GetState_expiry_witness :
  GetState Demo.t_2018
    (with_enterpriseExpiry Demo.server (Some (atomic.of_Time Demo.t_2030)))
  = (Some (mkGetStateResponse State_ACTIVE), None)
  /\ GetState Demo.t_2030
       (with_enterpriseExpiry Demo.server (Some (atomic.of_Time Demo.t_2018)))
     = (Some (mkGetStateResponse State_EXPIRED), None).
Proof.
  split.
  - exact (proj1 (GetState_expiry Demo.t_2018
                    (with_enterpriseExpiry Demo.server
                       (Some (atomic.of_Time Demo.t_2030)))
                    Demo.t_2030 eq_refl eq_refl)).
  - exact (proj1 (GetState_expiry Demo.t_2030
                    (with_enterpriseExpiry Demo.server
                       (Some (atomic.of_Time Demo.t_2018)))
                    Demo.t_2018 eq_refl eq_refl)).
Defined.

(** ** validateActivationCode *)

Ltac unpack :=
  repeat match goal with
    | H : key_loads _ _ |- _ => destruct H as (? & ? & ?)
    | H : embeds _ _ _ _ |- _ => destruct H as (? & ? & ?)
    | H : carries _ _ _ _ |- _ => destruct H as (? & ? & ?)
    | H : signed _ _ _ _ |- _ => destruct H as (? & ? & ? & ?)
    | H : enveloped _ _ _ |- _ => destruct H as (? & ? & ?)
    | H : decoded _ _ _ |- _ => unfold decoded in H
    | H : signature_decoded _ _ _ |- _ => unfold signature_decoded in H
    | H : verifies _ _ _ _ |- _ => unfold verifies in H
    end.

Ltac run_checks :=
  unfold validateActivationCode;
  repeat match goal with
    | H : ?f = _ |- context [?f] => rewrite H
    end.



(** C3: a code that is the base64 of an envelope whose token is correctly
    signed, and whose embedded RFC3339 expiry is strictly after the current
    time, is accepted: [validateActivationCode] returns that expiry and no
    error. *)
Theorem validateActivationCode_accepts
    (L : Lib) (now : Time) (code : string) (rsaPub : rsa_PublicKey)
    (expiry : Time) :
  key_loads L rsaPub ->
  embeds L rsaPub code expiry ->
  time.After expiry now = true ->
  validateActivationCode L now code = Ret (expiry, None).
Proof.
  intros Hkey Hcode Hfuture. apply After_asym in Hfuture.
  unpack. run_checks. reflexivity.
Qed.

Lemma Demo_key_loads : key_loads Demo.lib (mkPublicKey 3233 17).
Proof. exists "der". split; reflexivity. Qed.

Lemma Demo_embeds_2030 :
  embeds Demo.lib (mkPublicKey 3233 17) "Y29kZS0yMDMw" Demo.t_2030.
Proof.
  exists (mkToken "2030-01-01T00:00:00Z"). split; [|reflexivity].
  exists Demo.envelope_2030. split; [|reflexivity].
  split.
  - exists "code-2030". split; reflexivity.
  - exists "2030". split; reflexivity.
Qed.

Lemma Demo_embeds_far :
  embeds Demo.lib (mkPublicKey 3233 17) "Y29kZS1mYXI=" Demo.t_far.
Proof.
  exists (mkToken "9999-12-31T23:59:59-01:00"). split; [|reflexivity].
  exists Demo.envelope_far. split; [|reflexivity].
  split.
  - exists "code-far". split; reflexivity.
  - exists "far". split; reflexivity.
Qed.

Lemma validateActivationCode_accepts_witness :
  validateActivationCode Demo.lib Demo.t_2018 "Y29kZS0yMDMw"
  = Ret (Demo.t_2030, None).
Proof.
  exact (validateActivationCode_accepts Demo.lib Demo.t_2018 "Y29kZS0yMDMw"
           (mkPublicKey 3233 17) Demo.t_2030
           Demo_key_loads Demo_embeds_2030 eq_refl).
Defined.

(** The verifier returns no time with an error, and does not fail at an
    expiry equal to the current time. *)
Lemma validateActivationCode_error_zero
    (L : Lib) (now : Time) (code : string) (t : Time) (reason : string) :
  validateActivationCode L now code = Ret (t, Some reason) -> t = time.zero.
Proof.
  unfold validateActivationCode. intros H.
  repeat match type of H with
    | match ?x with _ => _ end = _ => destruct x
    | (if ?x then _ else _) = _ => destruct x
    end; congruence.
Qed.

(** ** Activate *)

(** C4: when the verifier returns an error for the code of the request,
    [Activate] returns an error that wraps the verifier's reason, and the
    server and the store are as they were. *)
Theorem Activate_validation_error
    (L : Lib) (now : Time) (commit : error) (a : apiServer)
    (store : gmap string EnterpriseRecord) (req : ActivateRequest)
    (t : Time) (reason : string) :
  validateActivationCode L now (GetActivationCode req) = Ret (t, Some reason) ->
  Activate L now commit a store req =
    Ret (None, Some ("error validating activation code: " +:+ reason),
         (a, store)).
Proof.
  intros Hv. unfold Activate. rewrite Hv. reflexivity.
Qed.

Lemma Activate_validation_error_witness :
  Activate Demo.lib Demo.t_2018 None Demo.server ∅ (mkActivateRequest "ZmFy")
  = Ret (None,
         Some "error validating activation code: activation code is not valid JSON",
         (Demo.server, ∅)).
Proof.
  exact (Activate_validation_error Demo.lib Demo.t_2018 None Demo.server ∅
           (mkActivateRequest "ZmFy") time.zero
           "activation code is not valid JSON" eq_refl).
Defined.

(** The transaction of [Activate] writes one key. *)
Lemma Activate_txn_writes
    (L : Lib) (a : apiServer) (req : ActivateRequest) (expiry : Time)
    (p : option Timestamp) :
  types.TimestampProto (Timestamp_String L) expiry = (p, None) ->
  Activate_txn L a req expiry ∅ =
    ({[ col.Path (enterpriseToken a) enterpriseTokenKey :=
          mkEnterpriseRecord (GetActivationCode req) p ]}, None).
Proof.
  intros Hp. unfold Activate_txn, col.Put. rewrite Hp.
  rewrite insert_empty. reflexivity.
Qed.

(** C5, as stated, fails: the verifier accepts the code of expiry
    9999-12-31T23:59:59-01:00, the store accepts every commit, and
    [Activate] writes no record. *)
Lemma Activate_accepted_code_not_committed :
  ~ (forall (L : Lib) (now : Time) (a : apiServer)
       (store : gmap string EnterpriseRecord) (req : ActivateRequest)
       (expiry : Time),
       validateActivationCode L now (GetActivationCode req) = Ret (expiry, None) ->
       exists p resp err store',
         Activate L now None a store req = Ret (resp, err, (a, store')) /\
         store' !! col.Path (enterpriseToken a) enterpriseTokenKey =
           Some (mkEnterpriseRecord (GetActivationCode req) p)).
Proof.
  intros H.
  destruct (H Demo.lib Demo.t_2018 Demo.server ∅
              (mkActivateRequest "Y29kZS1mYXI=") Demo.t_far eq_refl)
    as (p & resp & err & store' & HA & Hlook).
  vm_compute in HA. injection HA as _ _ <-. discriminate Hlook.
Qed.

(** C5, amended: for a code that the verifier accepts with an expiry that
    converts to a protobuf timestamp [p], the transaction of [Activate] is
    one blind write of the record of that code and [p] at the fixed key;
    when the store commits, the store holds that record at that key and is
    otherwise unchanged; when the store fails, its error is returned as it
    is and nothing is written. The server, and with it the cached expiry, is
    never changed. When the expiry does not convert, the error of the
    conversion is returned and nothing is written. *)
Theorem Activate_commits
    (L : Lib) (now : Time) (a : apiServer)
    (store : gmap string EnterpriseRecord) (req : ActivateRequest)
    (expiry : Time) :
  validateActivationCode L now (GetActivationCode req) = Ret (expiry, None) ->
  let key := col.Path (enterpriseToken a) enterpriseTokenKey in
  (forall p, types.TimestampProto (Timestamp_String L) expiry = (p, None) ->
     let record := mkEnterpriseRecord (GetActivationCode req) p in
     Activate_txn L a req expiry ∅ = ({[ key := record ]}, None)
     /\ Activate L now None a store req =
          Ret (Some mkActivateResponse, None, (a, <[key := record]> store))
     /\ (forall err, Activate L now (Some err) a store req =
                       Ret (None, Some err, (a, store))))
  /\ (forall p err commit,
        types.TimestampProto (Timestamp_String L) expiry = (p, Some err) ->
        Activate L now commit a store req = Ret (None, Some err, (a, store))).
Proof.
  intros Hv key. split.
  - intros p Hp record.
    pose proof (Activate_txn_writes L a req expiry p Hp) as Htxn.
    split; [exact Htxn|]. split.
    + unfold Activate, col.NewSTM. rewrite Hv, Htxn.
      rewrite <- insert_union_singleton_l. reflexivity.
    + intros err. unfold Activate, col.NewSTM. rewrite Hv, Htxn. reflexivity.
  - intros p err commit Hp.
    unfold Activate, col.NewSTM, Activate_txn. rewrite Hv, Hp. reflexivity.
Qed.

Lemma Activate_commits_witness :
  Activate Demo.lib Demo.t_2018 None Demo.server ∅
    (mkActivateRequest "Y29kZS0yMDMw")
  = Ret (Some mkActivateResponse, None,
         (Demo.server, <["/pach/token" := Demo.record_2030]> ∅)).
Proof.
  exact (proj1 (proj2 (proj1 (Activate_commits Demo.lib Demo.t_2018 Demo.server ∅
                                (mkActivateRequest "Y29kZS0yMDMw") Demo.t_2030
                                eq_refl)
                         (Some Demo.ts_2030) eq_refl))).
Defined.

(** ** The watch loop on single events *)

Lemma handle_event_Put (L : Lib) (a : apiServer) (ev : watch.Event) (expiry : Time) :
  watch.EvType ev = watch.EventPut ->
  decodes L (watch.Value ev) expiry ->
  handle_event L a ev =
    Next (with_enterpriseExpiry a (Some (atomic.of_Time expiry))).
Proof.
  intros Hty Hdec. unfold handle_event, watch.Unmarshal.
  unfold decodes in Hdec. rewrite Hdec, Hty. reflexivity.
Qed.

Lemma watch_loop_Puts (L : Lib) (evs : list watch.Event) :
  Forall (decodable_Put L) evs ->
  forall (a : apiServer) (rest : list watch.Event) (closes : bool),
  exists a', watch_loop L a (evs ++ rest) closes = watch_loop L a' rest closes.
Proof.
  induction 1 as [|ev evs [Hty [e He]] _ IH]; intros a rest closes.
  - exists a. reflexivity.
  - simpl. rewrite (handle_event_Put L a ev e Hty He). apply IH.
Qed.

(** C6: a [Put] event whose record decodes to [expiry] replaces the cached
    value by [expiry], whatever was cached; after a sequence of such events
    the cache holds the expiry of the last one. *)
Theorem Put_last_wins
    (L : Lib) (a : apiServer) (evs : list watch.Event) (ev : watch.Event)
    (expiry : Time) (closes : bool) :
  Forall (decodable_Put L) evs ->
  watch.EvType ev = watch.EventPut ->
  decodes L (watch.Value ev) expiry ->
  handle_event L a ev =
    Next (mkApiServer (Some (atomic.of_Time expiry)) (enterpriseToken a))
  /\ enterpriseExpiry (fst (watch_loop L a (evs ++ [ev]) closes)) =
       Some (atomic.of_Time expiry).
Proof.
  intros Hevs Hty Hdec. split.
  - apply handle_event_Put; assumption.
  - destruct (watch_loop_Puts L evs Hevs a [ev] closes) as [a' ->].
    simpl. rewrite (handle_event_Put L a' ev expiry Hty Hdec).
    destruct closes; reflexivity.
Qed.

Lemma Demo_decodes_2030 : decodes Demo.lib Demo.record_2030 Demo.t_2030.
Proof. reflexivity. Qed.

Lemma Put_last_wins_witness :
  enterpriseExpiry
    (fst (watch_loop Demo.lib Demo.server
            ([watch.emit (watch.Put "token"
                            (mkEnterpriseRecord "" (Some (types.mkTimestamp 7 0))))]
             ++ [watch.emit (watch.Put "token" Demo.record_2030)]) false))
  = Some (atomic.of_Time Demo.t_2030).
Proof.
  refine (proj2 (Put_last_wins Demo.lib Demo.server
                   [watch.emit (watch.Put "token"
                                  (mkEnterpriseRecord "" (Some (types.mkTimestamp 7 0))))]
                   (watch.emit (watch.Put "token" Demo.record_2030))
                   Demo.t_2030 false _ eq_refl Demo_decodes_2030)).
  repeat constructor. eexists. reflexivity.
Defined.



(** C10: the expiry is decoded before the kind of the event is looked at.
    An event of any kind whose record has no decodable expiry makes the turn
    return the decoding error; an [Error] event that carries no record does
    so with the error of a [nil] timestamp, whatever its own error is; the
    branch that returns the event's own error is taken by the [Error]
    events whose record decodes. *)
Theorem handle_event_decodes_first
    (L : Lib) (a : apiServer) (ev : watch.Event) (t : Time) :
  (forall err,
     types.TimestampFromProto (Timestamp_String L)
       (Expires (watch.Value ev)) = (t, Some err) ->
     handle_event L a ev =
       Return a (Some ("could not parse expiration timestamp: " +:+ err)))
  /\ (forall err,
        handle_event L a (watch.emit (watch.Error err)) =
          Return a (Some "could not parse expiration timestamp: timestamp: nil Timestamp"))
  /\ (watch.EvType ev = watch.EventError ->
      decodes L (watch.Value ev) t ->
      handle_event L a ev = Return a (watch.Err ev)).
Proof.
  split; [|split].
  - intros err Hdec. unfold handle_event, watch.Unmarshal.
    rewrite Hdec. reflexivity.
  - intros err. reflexivity.
  - intros Hty Hdec. unfold handle_event, watch.Unmarshal.
    unfold decodes in Hdec. rewrite Hdec, Hty. reflexivity.
Qed.

(** ** The cache always holds a time *)

Lemma Activate_server
    (L : Lib) (now : Time) (commit : error) (a : apiServer)
    (store : gmap string EnterpriseRecord) (req : ActivateRequest)
    resp (a' : apiServer) (store' : gmap string EnterpriseRecord) :
  Activate L now commit a store req = Ret (resp, (a', store')) -> a' = a.
Proof.
  unfold Activate. intros H.
  destruct (validateActivationCode L now (GetActivationCode req))
    as [[expiry [err|]]|msg]; [| |discriminate].
  - congruence.
  - destruct (col.NewSTM store commit (Activate_txn L a req expiry))
      as [store'' [err|]]; congruence.
Qed.

Lemma handle_event_holds_time (L : Lib) (a : apiServer) (ev : watch.Event) :
  holds_time a -> holds_time (flow_server (handle_event L a ev)).
Proof.
  intros [c Hc]. unfold handle_event, watch.Unmarshal.
  destruct (types.TimestampFromProto _ _) as [expiry [err|]]; simpl.
  - exists c. exact Hc.
  - destruct (watch.EvType ev); simpl.
    + eexists. reflexivity.
    + unfold atomic.Load. rewrite Hc. simpl.
      destruct (decide (expiry = c)); simpl; eexists; eauto.
    + exists c. exact Hc.
Qed.

Lemma server_step_holds_time (L : Lib) s s' :
  server_step L s s' -> holds_time (fst s) -> holds_time (fst s').
Proof.
  destruct 1 as [a store ev|now commit a store req resp a' store' HA]; simpl.
  - apply handle_event_holds_time.
  - apply Activate_server in HA. subst a'. trivial.
Qed.

Lemma reachable_holds_time (L : Lib) s s' :
  rtc (server_step L) s s' -> holds_time (fst s) -> holds_time (fst s').
Proof.
  induction 1 as [|s1 s2 s3 Hstep _ IH]; [trivial|].
  intros H. apply IH. exact (server_step_holds_time L s1 s2 Hstep H).
Qed.

(** C8: a server that [NewEnterpriseServer] has constructed caches the zero
    time, for which [GetState] answers NONE; and whatever events the watch
    handles and whatever [Activate] calls return afterwards, the cache
    holds a time and [GetState] returns a state and no error. *)
Theorem GetState_never_fails
    (L : Lib) (dial : error) (etcdAddress etcdPrefix : string)
    (s a : apiServer) (store store' : gmap string EnterpriseRecord)
    (now : Time) :
  NewEnterpriseServer dial etcdAddress etcdPrefix = (Some s, None) ->
  rtc (server_step L) (s, store) (a, store') ->
  GetState now s = (Some (mkGetStateResponse State_NONE), None)
  /\ holds_time a
  /\ exists state, GetState now a = (Some (mkGetStateResponse state), None).
Proof.
  intros Hnew Hreach.
  assert (Hs : enterpriseExpiry s = Some (atomic.of_Time time.zero)).
  { unfold NewEnterpriseServer in Hnew. destruct dial; [discriminate|].
    injection Hnew as <-. reflexivity. }
  split; [rewrite (GetState_holds_time now s time.zero Hs); reflexivity|].
  assert (Ha : holds_time a).
  { apply (reachable_holds_time L _ _ Hreach). exists time.zero. exact Hs. }
  split; [exact Ha|].
  destruct Ha as [t Ht]. rewrite (GetState_holds_time now a t Ht).
  eexists. reflexivity.
Qed.

Lemma GetState_never_fails_witness :
  exists state,
    GetState Demo.t_2018
      (flow_server
         (handle_event Demo.lib Demo.server
            (watch.emit (watch.Put "token" Demo.record_2030))))
    = (Some (mkGetStateResponse state), None).
Proof.
  refine (proj2 (proj2 (GetState_never_fails Demo.lib None "etcd:2379" "/pach"
                          Demo.server _ ∅ ∅ Demo.t_2018 eq_refl _))).
  eapply rtc_l; [|apply rtc_refl].
  apply (step_event Demo.lib Demo.server ∅).
Defined.

(** ** The watch never ends by itself *)

Lemma NextBackOff_unbounded (b : backoff.ExponentialBackOff) :
  unbounded b ->
  backoff.NextBackOff b =
    (backoff.currentInterval b,
     backoff.mkBackOff (backoff.InitialInterval b) 0
       (2 * backoff.currentInterval b)
       (backoff.elapsed b + backoff.currentInterval b))
  /\ unbounded (snd (backoff.NextBackOff b))
  /\ (backoff.currentInterval b =? backoff.Stop) = false.
Proof.
  intros [Hmax Hpos]. unfold backoff.NextBackOff. rewrite Hmax. simpl.
  split; [reflexivity|]. split.
  - split; simpl; lia.
  - unfold backoff.Stop. lia.
Qed.

Lemma NewInfiniteBackOff_unbounded :
  unbounded (backoff.Reset backoff.NewInfiniteBackOff).
Proof. split; reflexivity. Qed.

(** A turn of the loop that returns on an event of the change stream
    returns an error. *)
Lemma handle_event_emit_fails
    (L : Lib) (a a' : apiServer) (c : watch.change) (r : error) :
  handle_event L a (watch.emit c) = Return a' r -> exists err, r = Some err.
Proof.
  unfold handle_event, watch.Unmarshal. destruct c as [key rec|key rec|e]; simpl.
  - destruct (types.validateTimestamp _ _); intros H; inversion H; eauto.
  - destruct (types.validateTimestamp _ _); [intros H; inversion H; eauto|].
    destruct (atomic.assert_Time _) as [c [|]]; simpl.
    + destruct (decide _); discriminate.
    + intros H; inversion H; eauto.
  - intros H; inversion H; eauto.
Qed.

Lemma watch_loop_emit_fails (L : Lib) (changes : list watch.change) :
  forall (a a' : apiServer) (closes : bool) (r : error),
  watch_loop L a (watch.emit <$> changes) closes = (a', backoff.Returned r) ->
  exists err, r = Some err.
Proof.
  induction changes as [|c changes IH]; intros a a' closes r; simpl.
  - destruct closes; intros H; inversion H; eauto.
  - destruct (handle_event L a (watch.emit c)) as [a1|a1 r1] eqn:He.
    + apply IH.
    + intros H. inversion H; subst.
      exact (handle_event_emit_fails L a a' c r He).
Qed.

Lemma watch_operation_fails
    (L : Lib) (c : watch.connection) (a a' : apiServer) (r : error) :
  watch_operation L a (watch.attempt_of c) = (a', backoff.Returned r) ->
  exists err, r = Some err.
Proof.
  destruct c as [err|changes closes]; simpl.
  - intros H; inversion H; eauto.
  - apply watch_loop_emit_fails.
Qed.

(** One failed attempt under a policy without ceiling: the failure is
    logged, the loop sleeps for the current interval and goes on with the
    rest of the script. *)
Lemma retry_failed_attempt
    (L : Lib) (b : backoff.ExponentialBackOff) (att : watch.attempt)
    (rest : list watch.attempt) (a a' : apiServer) (err : string)
    (tr : list backoff.effect) :
  unbounded b ->
  watch_operation L a att = (a', backoff.Returned (Some err)) ->
  backoff.retry (watch_operation L) (watch_notify L) b (att :: rest) a tr =
    backoff.retry (watch_operation L) (watch_notify L)
      (snd (backoff.NextBackOff b)) rest a'
      (tr ++ [backoff.Log ("error from activation check: " +:+ err +:+
                           "; retrying in " +:+
                           Duration_String L (backoff.currentInterval b));
              backoff.Sleep (backoff.currentInterval b)]).
Proof.
  intros Hb Hop. destruct (NextBackOff_unbounded b Hb) as (Hnext & _ & Hstop).
  simpl. rewrite Hop, Hnext. simpl. rewrite Hstop.
  unfold watch_notify. rewrite <- app_assoc. reflexivity.
Qed.



(** A run of the watch over a refused connection, a stream that closes
    after a [Put], a stream with an [Error], and a stream that stays open. *)
Example watchEnterpriseToken_run :
  watchEnterpriseToken Demo.lib Demo.server
    (watch.attempt_of <$>
       [watch.Refused "connection refused";
        watch.Established [watch.Put "token" Demo.record_2030] true;
        watch.Established [watch.Error (Some "etcd: compacted")] false;
        watch.Established [] false])
  = (with_enterpriseExpiry Demo.server (Some (atomic.of_Time Demo.t_2030)),
     [backoff.Log "error from activation check: connection refused; retrying in 500000000ns";
      backoff.Sleep 500000000;
      backoff.Log "error from activation check: admin watch closed unexpectedly; retrying in 1000000000ns";
      backoff.Sleep 1000000000;
      backoff.Log "error from activation check: could not parse expiration timestamp: timestamp: nil Timestamp; retrying in 2000000000ns";
      backoff.Sleep 2000000000],
     backoff.Streaming).
Proof. vm_compute. reflexivity. Qed.

(** The change stream delivers no [Error] event with a record. Such an
    event, if it came with a decodable record and without an error, would
    make the retried operation return [nil] and end the retry loop. *)
Remark Error_event_with_record_and_nil_Err :
  watchEnterpriseToken Demo.lib Demo.server
    [watch.WatchOpens [watch.mkEvent "token" Demo.record_2030 watch.EventError None] false]
  = (Demo.server, [], backoff.Stopped None).
Proof. vm_compute. reflexivity. Qed.

(** The envelope [null] passes the JSON decoder and leaves a [nil] pointer,
    whose [Signature] the verifier then reads. *)
Example validateActivationCode_null_envelope :
  validateActivationCode Demo.lib Demo.t_2018 "bnVsbA==" = Panic nil_dereference.
Proof. reflexivity. Qed.

(** * Further properties *)

(** ** The verifier *)

Lemma After_trans (t u v : Time) :
  time.After t u = true -> time.After u v = true -> time.After t v = true.
Proof.
  unfold time.After. intros H1 H2.
  apply orb_true_iff in H1. apply orb_true_iff in H2. apply orb_true_iff.
  rewrite andb_true_iff.
  destruct H1 as [H1|H1]; [|apply andb_true_iff in H1 as [H1 H1']];
    (destruct H2 as [H2|H2]; [|apply andb_true_iff in H2 as [H2 H2']]);
    first [left; lia | right; lia].
Qed.

(** An accepted code has passed every check. *)
Lemma validateActivationCode_accepted_inv
    (L : Lib) (now : Time) (code : string) (expiry : Time) :
  validateActivationCode L now code = Ret (expiry, None) ->
  exists rsaPub,
    key_loads L rsaPub /\ embeds L rsaPub code expiry /\
    time.After now expiry = false.
Proof.
  - unfold validateActivationCode. intros H.
    destruct (pem_Decode L publicKey) as [block|] eqn:Hpem; [|discriminate].
    destruct (x509_ParsePKIXPublicKey L block) as [pub [e|]] eqn:Hx;
      [discriminate|].
    destruct pub as [rsaPub|]; [|discriminate].
    destruct (base64_DecodeString L code) as [data [e|]] eqn:Hb;
      [discriminate|].
    destruct (json_Unmarshal_activationCode L data) as [p [e|]] eqn:Hj;
      [discriminate|].
    destruct p as [ac|]; [|discriminate].
    destruct (base64_DecodeString L (Signature ac)) as [sig [e|]] eqn:Hs;
      [discriminate|].
    destruct (rsa_VerifyPKCS1v15 L rsaPub (sha256_Sum256 L (Token ac)) sig)
      eqn:Hv; [discriminate|].
    destruct (json_Unmarshal_token L (Token ac)) as [tk [e|]] eqn:Ht;
      [discriminate|].
    destruct (time_Parse_RFC3339 L (Expiry tk)) as [t [e|]] eqn:Hp;
      [discriminate|].
    destruct (time.After now t) eqn:Ha; [discriminate|].
    injection H as <-.
    exists rsaPub. split; [exists block; split; assumption|].
    split; [|exact Ha].
    exists tk. split; [|exact Hp].
    exists ac. split; [|exact Ht].
    split; [exists data; split; assumption|].
    exists sig. split; assumption.
Qed.

(** A code that passes every check is accepted. *)
Lemma validateActivationCode_accepted_intro
    (L : Lib) (now : Time) (code : string) (rsaPub : rsa_PublicKey)
    (expiry : Time) :
  key_loads L rsaPub -> embeds L rsaPub code expiry ->
  time.After now expiry = false ->
  validateActivationCode L now code = Ret (expiry, None).
Proof.
  intros Hkey Hcode Hnow. unpack. run_checks. reflexivity.
Qed.

(** X1: [validateActivationCode] accepts a code with an expiry exactly
    when the embedded key loads, the code is the base64 of an envelope
    whose token is correctly signed and embeds that expiry, and the
    current time is not after the expiry. *)
Theorem validateActivationCode_accepts_iff
    (L : Lib) (now : Time) (code : string) (expiry : Time) :
  validateActivationCode L now code = Ret (expiry, None) <->
  exists rsaPub,
    key_loads L rsaPub /\ embeds L rsaPub code expiry /\
    time.After now expiry = false.
Proof.
  split.
  - apply validateActivationCode_accepted_inv.
  - intros (rsaPub & Hkey & Hcode & Hnow).
    exact (validateActivationCode_accepted_intro L now code rsaPub expiry
             Hkey Hcode Hnow).
Qed.

(** X2: on every path on which the verifier returns an error, the failures
    of the key included, the time it returns is the zero time. *)
Theorem validateActivationCode_error_has_no_time
    (L : Lib) (now : Time) (code : string) (t : Time) (reason : string) :
  validateActivationCode L now code = Ret (t, Some reason) -> t = time.zero.
Proof.
  apply validateActivationCode_error_zero.
Qed.

Lemma validateActivationCode_error_has_no_time_witness :
  validateActivationCode Demo.lib Demo.t_2018 "ZmFy"
  = Ret (time.zero, Some "activation code is not valid JSON")
  /\ time.zero = time.zero.
Proof.
  split; [reflexivity|].
  exact (validateActivationCode_error_has_no_time Demo.lib Demo.t_2018 "ZmFy"
           time.zero "activation code is not valid JSON" eq_refl).
Defined.

(** X3: a correctly signed code is still accepted at the very instant of
    its expiry. *)
Theorem validateActivationCode_accepts_at_expiry
    (L : Lib) (code : string) (rsaPub : rsa_PublicKey) (expiry : Time) :
  key_loads L rsaPub ->
  embeds L rsaPub code expiry ->
  validateActivationCode L expiry code = Ret (expiry, None).
Proof.
  intros Hkey Hcode.
  apply (validateActivationCode_accepted_intro L expiry code rsaPub expiry
           Hkey Hcode).
  apply After_irrefl.
Qed.

Lemma validateActivationCode_accepts_at_expiry_witness :
  validateActivationCode Demo.lib Demo.t_2030 "Y29kZS0yMDMw"
  = Ret (Demo.t_2030, None).
Proof.
  exact (validateActivationCode_accepts_at_expiry Demo.lib "Y29kZS0yMDMw"
           (mkPublicKey 3233 17) Demo.t_2030 Demo_key_loads Demo_embeds_2030).
Defined.

(** X4: when the embedded key does not load as an RSA key, the verifier
    rejects every code at every time: it returns the zero time and an
    error, and does not panic. *)
Theorem validateActivationCode_without_key
    (L : Lib) (now : Time) (code : string) :
  (forall rsaPub, ~ key_loads L rsaPub) ->
  exists reason,
    validateActivationCode L now code = Ret (time.zero, Some reason).
Proof.
  intros Hno. unfold validateActivationCode.
  destruct (pem_Decode L publicKey) as [block|] eqn:Hpem; [|eauto].
  destruct (x509_ParsePKIXPublicKey L block) as [pub [e|]] eqn:Hx; [eauto|].
  destruct pub as [rsaPub|]; [|eauto].
  exfalso. apply (Hno rsaPub). exists block. split; assumption.
Qed.

Lemma validateActivationCode_without_key_witness :
  exists reason,
    validateActivationCode Demo_no_key Demo.t_2018 "Y29kZS0yMDMw"
    = Ret (time.zero, Some reason).
Proof.
  apply (validateActivationCode_without_key Demo_no_key Demo.t_2018 "Y29kZS0yMDMw").
  intros rsaPub (block & Hpem & _). discriminate Hpem.
Defined.

(** X5: the time enters the verdict through the expiry check alone. A code
    accepted at one time with an expiry is, at any other time, accepted
    with the same expiry when that time is not after the expiry, and
    rejected as expired otherwise. *)
Theorem validateActivationCode_at_other_time
    (L : Lib) (now now' : Time) (code : string) (expiry : Time) :
  validateActivationCode L now code = Ret (expiry, None) ->
  validateActivationCode L now' code =
    if time.After now' expiry
    then Ret (time.zero, Some "the activation code has expired")
    else Ret (expiry, None).
Proof.
  intros H. apply validateActivationCode_accepted_inv in H
    as (rsaPub & Hkey & Hcode & _).
  unpack. run_checks. reflexivity.
Qed.

Lemma validateActivationCode_at_other_time_witness :
  validateActivationCode Demo.lib Demo.t_far "Y29kZS0yMDMw"
  = Ret (time.zero, Some "the activation code has expired").
Proof.
  exact (validateActivationCode_at_other_time Demo.lib Demo.t_2018 Demo.t_far
           "Y29kZS0yMDMw" Demo.t_2030 eq_refl).
Defined.

(** X6: the verifier panics exactly on the codes whose decoded bytes the
    JSON decoder takes without error while leaving a [nil] envelope, and
    then with the nil dereference. *)
Theorem validateActivationCode_panics_iff
    (L : Lib) (now : Time) (code msg : string) :
  validateActivationCode L now code = Panic msg <->
  msg = nil_dereference /\
  exists rsaPub data,
    key_loads L rsaPub /\ decoded L code data /\
    json_Unmarshal_activationCode L data = (None, None).
Proof.
  split.
  - unfold validateActivationCode. intros H.
    destruct (pem_Decode L publicKey) as [block|] eqn:Hpem; [|discriminate].
    destruct (x509_ParsePKIXPublicKey L block) as [pub [e|]] eqn:Hx;
      [discriminate|].
    destruct pub as [rsaPub|]; [|discriminate].
    destruct (base64_DecodeString L code) as [data [e|]] eqn:Hb;
      [discriminate|].
    destruct (json_Unmarshal_activationCode L data) as [p [e|]] eqn:Hj;
      [discriminate|].
    destruct p as [ac|].
    + destruct (base64_DecodeString L (Signature ac)) as [sig [e|]];
        [discriminate|].
      destruct (rsa_VerifyPKCS1v15 L rsaPub (sha256_Sum256 L (Token ac)) sig);
        [discriminate|].
      destruct (json_Unmarshal_token L (Token ac)) as [tk [e|]];
        [discriminate|].
      destruct (time_Parse_RFC3339 L (Expiry tk)) as [t [e|]];
        [discriminate|].
      destruct (time.After now t); discriminate.
    + injection H as <-. split; [reflexivity|].
      exists rsaPub, data. split; [exists block; split; assumption|].
      split; assumption.
  - intros (-> & rsaPub & data & Hkey & Hdata & Hnull).
    unpack. run_checks. reflexivity.
Qed.

(** ** Activate *)

Lemma TimestampProto_ok
    (String : Timestamp -> string) (t : Time) (p : option Timestamp) :
  types.TimestampProto String t = (p, None) ->
  p = Some (types.mkTimestamp (time.ToUnix t) (time.nsec t)) /\
  types.validateTimestamp String p = None.
Proof.
  unfold types.TimestampProto.
  destruct (types.validateTimestamp String
              (Some (types.mkTimestamp (time.ToUnix t) (time.nsec t))))
    eqn:Hv; [discriminate|].
  intros H. injection H as <-. split; [reflexivity|exact Hv].
Qed.

(** Encoding a time for the record and decoding it again gives the time. *)
Lemma Timestamp_round_trip
    (String : Timestamp -> string) (t : Time) (p : option Timestamp) :
  int64 (time.sec t) ->
  types.TimestampProto String t = (p, None) ->
  types.TimestampFromProto String p = (t, None).
Proof.
  intros Hs Hp. destruct (TimestampProto_ok String t p Hp) as [-> Hv].
  unfold types.TimestampFromProto. rewrite Hv. f_equal.
  unfold types.validateTimestamp in Hv. simpl in Hv.
  destruct (time.ToUnix t <? types.minValidSeconds) eqn:H1; [discriminate|].
  destruct (time.ToUnix t >=? types.maxValidSeconds) eqn:H2; [discriminate|].
  destruct ((time.nsec t <? 0) || (time.nsec t >=? 1000000000)) eqn:H3;
    [discriminate|].
  unfold time.Unix. simpl. rewrite H3.
  destruct t as [s n]. simpl in *. f_equal.
  unfold time.ToUnix, int64, wrap64, time.unixToInternal,
    types.minValidSeconds, types.maxValidSeconds in *. simpl in *.
  change (2 ^ 63) with 9223372036854775808 in *.
  change (2 ^ 64) with 18446744073709551616 in *.
  Z.to_euclidean_division_equations. lia.
Qed.

(** What a returned [Activate] has done. *)
Lemma Activate_inv
    (L : Lib) (now : Time) (commit : error) (a : apiServer)
    (store : gmap string EnterpriseRecord) (req : ActivateRequest)
    (resp : option ActivateResponse) (err : error) (a' : apiServer)
    (store' : gmap string EnterpriseRecord) :
  Activate L now commit a store req = Ret (resp, err, (a', store')) ->
  a' = a
  /\ match err with
     | Some _ => resp = None /\ store' = store
     | None =>
         resp = Some mkActivateResponse /\ commit = None /\
         exists expiry ts,
           validateActivationCode L now (GetActivationCode req) =
             Ret (expiry, None) /\
           types.TimestampProto (Timestamp_String L) expiry = (Some ts, None) /\
           store' = <[token_path a :=
                        mkEnterpriseRecord (GetActivationCode req) (Some ts)]>
                      store
     end.
Proof.
  unfold Activate. intros H.
  destruct (validateActivationCode L now (GetActivationCode req))
    as [[expiry [e|]]|msg] eqn:Hv; [| |discriminate].
  - injection H as <- <- <- <-. auto.
  - unfold col.NewSTM, Activate_txn in H.
    destruct (types.TimestampProto (Timestamp_String L) expiry)
      as [p [e|]] eqn:Hp.
    + injection H as <- <- <- <-. auto.
    + destruct commit as [e|].
      * injection H as <- <- <- <-. auto.
      * injection H as <- <- <- <-.
        destruct (TimestampProto_ok _ _ _ Hp) as [-> _].
        split; [reflexivity|]. split; [reflexivity|]. split; [reflexivity|].
        exists expiry, (types.mkTimestamp (time.ToUnix expiry) (time.nsec expiry)).
        split; [reflexivity|]. split; [exact Hp|].
        unfold col.Put, token_path. rewrite insert_empty.
        rewrite <- insert_union_singleton_l. reflexivity.
Qed.


(** X7: a returned [Activate] has either failed, with no response and the
    store as it was, or succeeded, and then the verifier has accepted the
    code, the store has committed, and the store differs from the old one
    in the record of that code at the token key alone. In both cases the
    server is unchanged and no other key of the store is touched. *)
Theorem Activate_outcome
    (L : Lib) (now : Time) (commit : error) (a : apiServer)
    (store : gmap string EnterpriseRecord) (req : ActivateRequest)
    (resp : option ActivateResponse) (err : error) (a' : apiServer)
    (store' : gmap string EnterpriseRecord) :
  Activate L now commit a store req = Ret (resp, err, (a', store')) ->
  a' = a
  /\ (forall k, k <> token_path a -> store' !! k = store !! k)
  /\ match err with
     | Some _ => resp = None /\ store' = store
     | None =>
         resp = Some mkActivateResponse /\ commit = None /\
         exists expiry ts,
           validateActivationCode L now (GetActivationCode req) =
             Ret (expiry, None) /\
           types.TimestampProto (Timestamp_String L) expiry = (Some ts, None) /\
           store' = <[token_path a :=
                        mkEnterpriseRecord (GetActivationCode req) (Some ts)]>
                      store
     end.
Proof.
  intros H. destruct (Activate_inv _ _ _ _ _ _ _ _ _ _ H) as [Ha Hout].
  split; [exact Ha|]. split; [|exact Hout].
  intros k Hk. destruct err as [e|].
  - destruct Hout as [_ ->]. reflexivity.
  - destruct Hout as (_ & _ & expiry & ts & _ & _ & ->).
    apply lookup_insert_ne. congruence.
Qed.

Lemma Activate_outcome_witness :
  (<["/pach/token" := Demo.record_2030]> ∅ : gmap string EnterpriseRecord)
    !! "/pach/other"
  = (∅ : gmap string EnterpriseRecord) !! "/pach/other".
Proof.
  refine (proj1 (proj2 (Activate_outcome Demo.lib Demo.t_2018 None Demo.server ∅
                          (mkActivateRequest "Y29kZS0yMDMw")
                          (Some mkActivateResponse) None Demo.server
                          (<["/pach/token" := Demo.record_2030]> ∅) eq_refl))
            "/pach/other" _).
  discriminate.
Defined.



(** X9: from [Activate] to [GetState]. When [Activate] succeeds for a code
    that the verifier accepts with an expiry, the record it leaves at the
    token key, delivered to the watch as a [Put] event, makes the cache hold
    exactly that expiry; [GetState] then answers ACTIVE at the time of the
    activation (NONE when the expiry is the zero time) and EXPIRED at every
    time after the expiry. *)
Theorem Activate_then_Put_then_GetState
    (L : Lib) (now : Time) (commit : error) (a a' a0 : apiServer)
    (store store' : gmap string EnterpriseRecord) (req : ActivateRequest)
    (resp : option ActivateResponse) (record : EnterpriseRecord)
    (key : string) (expiry : Time) :
  validateActivationCode L now (GetActivationCode req) = Ret (expiry, None) ->
  int64 (time.sec expiry) ->
  Activate L now commit a store req = Ret (resp, None, (a', store')) ->
  store' !! token_path a = Some record ->
  let a1 := mkApiServer (Some (atomic.of_Time expiry)) (enterpriseToken a0) in
  handle_event L a0 (watch.emit (watch.Put key record)) = Next a1
  /\ GetState now a1 =
       (Some (mkGetStateResponse
                (if time.IsZero expiry then State_NONE else State_ACTIVE)), None)
  /\ (forall now', time.IsZero expiry = false ->
        time.After now' expiry = true ->
        GetState now' a1 = (Some (mkGetStateResponse State_EXPIRED), None)).
Proof.
  intros Hv Hint HA Hlook a1.
  destruct (Activate_inv _ _ _ _ _ _ _ _ _ _ HA)
    as (_ & _ & _ & e & ts & Hv' & Hp & ->).
  rewrite Hv in Hv'. injection Hv' as <-.
  rewrite lookup_insert_eq in Hlook. injection Hlook as <-.
  apply validateActivationCode_accepted_inv in Hv as (_ & _ & _ & Hnow).
  split; [|split].
  - apply handle_event_Put; [reflexivity|].
    unfold decodes. simpl.
    exact (Timestamp_round_trip _ expiry (Some ts) Hint Hp).
  - rewrite (GetState_holds_time now a1 expiry eq_refl), Hnow. reflexivity.
  - intros now' Hz Hafter.
    rewrite (GetState_holds_time now' a1 expiry eq_refl), Hz, Hafter.
    reflexivity.
Qed.

Lemma Activate_then_Put_then_GetState_witness :
  GetState Demo.t_2018
    (mkApiServer (Some (atomic.of_Time Demo.t_2030)) (enterpriseToken Demo.server))
  = (Some (mkGetStateResponse State_ACTIVE), None).
Proof.
  refine (proj1 (proj2 (Activate_then_Put_then_GetState Demo.lib Demo.t_2018 None
                          Demo.server Demo.server Demo.server
                          ∅ (<["/pach/token" := Demo.record_2030]> ∅)
                          (mkActivateRequest "Y29kZS0yMDMw")
                          (Some mkActivateResponse) Demo.record_2030
                          "/pach/token" Demo.t_2030
                          eq_refl _ eq_refl eq_refl))).
  unfold int64. simpl. lia.
Defined.

(** ** GetState over time *)

(** X10: with the cache as it is, the answer of [GetState] only moves
    forward in time: EXPIRED at one time is EXPIRED at every later time,
    ACTIVE at one time is ACTIVE at every earlier time, and NONE does not
    depend on the time. *)
Theorem GetState_over_time (now later : Time) (a : apiServer) :
  time.After later now = true ->
  (GetState now a = (Some (mkGetStateResponse State_EXPIRED), None) ->
   GetState later a = (Some (mkGetStateResponse State_EXPIRED), None))
  /\ (GetState later a = (Some (mkGetStateResponse State_ACTIVE), None) ->
      GetState now a = (Some (mkGetStateResponse State_ACTIVE), None))
  /\ (GetState now a = (Some (mkGetStateResponse State_NONE), None) <->
      GetState later a = (Some (mkGetStateResponse State_NONE), None)).
Proof.
  intros Hlater. unfold GetState, atomic.Load.
  destruct (enterpriseExpiry a) as [[t|other]|]; simpl;
    [|repeat split; discriminate..].
  destruct (time.IsZero t); [repeat split; (discriminate || reflexivity)|].
  destruct (time.After now t) eqn:Hn; destruct (time.After later t) eqn:Hl;
    repeat split; try discriminate; try reflexivity.
  all: rewrite (After_trans later now t Hlater Hn) in Hl; discriminate.
Qed.

Lemma GetState_over_time_witness :
  GetState Demo.t_far
    (with_enterpriseExpiry Demo.server (Some (atomic.of_Time Demo.t_2018)))
  = (Some (mkGetStateResponse State_EXPIRED), None).
Proof.
  exact (proj1 (GetState_over_time Demo.t_2030 Demo.t_far
                  (with_enterpriseExpiry Demo.server
                     (Some (atomic.of_Time Demo.t_2018)))
                  eq_refl) eq_refl).
Defined.

(** ** The watch loop over whole streams *)

Lemma handle_event_cache (L : Lib) (a : apiServer) (ev : watch.Event) :
  enterpriseToken (flow_server (handle_event L a ev)) = enterpriseToken a
  /\ (flow_server (handle_event L a ev) = a
      \/ (watch.EvType ev = watch.EventDelete /\
          enterpriseExpiry (flow_server (handle_event L a ev)) =
            Some (atomic.of_Time time.zero))
      \/ exists e, watch.EvType ev = watch.EventPut /\
                   decodes L (watch.Value ev) e /\
                   enterpriseExpiry (flow_server (handle_event L a ev)) =
                     Some (atomic.of_Time e)).
Proof.
  unfold handle_event, watch.Unmarshal, decodes.
  destruct (types.TimestampFromProto _ _) as [expiry [err|]]; simpl; [auto|].
  destruct (watch.EvType ev) eqn:Hty; simpl.
  - split; [reflexivity|]. right. right. exists expiry. auto.
  - destruct (atomic.assert_Time _) as [c [|]]; simpl; [|auto].
    destruct (decide (expiry = c)); simpl; auto.
  - auto.
Qed.

Lemma watch_loop_cons (L : Lib) (a : apiServer) (ev : watch.Event)
    (events : list watch.Event) (closes : bool) :
  fst (watch_loop L a (ev :: events) closes) =
    fst (watch_loop L (flow_server (handle_event L a ev)) events closes)
  \/ fst (watch_loop L a (ev :: events) closes) =
       flow_server (handle_event L a ev).
Proof.
  simpl. destruct (handle_event L a ev); simpl; auto.
Qed.

(** X11: the cache never holds a value of its own making. After the loop
    has run over a stream of events, whatever their kinds and records, the
    cache holds what it held before, or the zero time because of a [Delete]
    event of the stream, or the decoded expiry of one [Put] event of the
    stream; the collection of the server is never changed. *)
Theorem watch_loop_cache_provenance
    (L : Lib) (events : list watch.Event) (a : apiServer) (closes : bool) :
  enterpriseToken (fst (watch_loop L a events closes)) = enterpriseToken a
  /\ (enterpriseExpiry (fst (watch_loop L a events closes)) = enterpriseExpiry a
      \/ (exists ev, ev ∈ events /\ watch.EvType ev = watch.EventDelete /\
            enterpriseExpiry (fst (watch_loop L a events closes)) =
              Some (atomic.of_Time time.zero))
      \/ (exists ev e, ev ∈ events /\ watch.EvType ev = watch.EventPut /\
            decodes L (watch.Value ev) e /\
            enterpriseExpiry (fst (watch_loop L a events closes)) =
              Some (atomic.of_Time e))).
Proof.
  revert a. induction events as [|ev events IH]; intros a.
  - simpl. destruct closes; simpl; auto.
  - destruct (handle_event_cache L a ev) as [Htok Hstep].
    assert (Hone :
      enterpriseExpiry (flow_server (handle_event L a ev)) = enterpriseExpiry a
      \/ (exists ev0, ev0 ∈ ev :: events /\
            watch.EvType ev0 = watch.EventDelete /\
            enterpriseExpiry (flow_server (handle_event L a ev)) =
              Some (atomic.of_Time time.zero))
      \/ (exists ev0 e, ev0 ∈ ev :: events /\
            watch.EvType ev0 = watch.EventPut /\
            decodes L (watch.Value ev0) e /\
            enterpriseExpiry (flow_server (handle_event L a ev)) =
              Some (atomic.of_Time e))).
    { destruct Hstep as [->|[[Hty Hz]|(e & Hty & Hdec & He)]].
      - auto.
      - right. left. exists ev. split; [left|]. auto.
      - right. right. exists ev, e. split; [left|]. auto. }
    destruct (watch_loop_cons L a ev events closes) as [->| ->];
      [|split; assumption].
    destruct (IH (flow_server (handle_event L a ev))) as [Htok' Hrest].
    split; [congruence|].
    destruct Hrest as [Heq|[(ev0 & Hin & Hty & Hz)|(ev0 & e & Hin & Hty & Hdec & He)]].
    + rewrite Heq. exact Hone.
    + right. left. exists ev0. split; [right; exact Hin|]. auto.
    + right. right. exists ev0, e. split; [right; exact Hin|]. auto.
Qed.

Lemma watch_loop_Next (L : Lib) (a a1 : apiServer) (ev : watch.Event)
    (events : list watch.Event) (closes : bool) :
  handle_event L a ev = Next a1 ->
  watch_loop L a (ev :: events) closes = watch_loop L a1 events closes.
Proof.
  intros H. simpl. rewrite H. reflexivity.
Qed.




(** X13: once the loop has returned on an event, the events behind it on
    the same channel are never handled: the result is the same whatever
    follows and however the channel ends. *)
Theorem watch_loop_returns_once
    (L : Lib) (before after : list watch.Event) (a a' : apiServer)
    (r : error) (closes : bool) :
  watch_loop L a before false = (a', backoff.Returned r) ->
  watch_loop L a (before ++ after) closes = (a', backoff.Returned r).
Proof.
  revert a. induction before as [|ev before IH]; intros a; simpl.
  - discriminate.
  - destruct (handle_event L a ev) as [a1|a1 r1]; [apply IH|trivial].
Qed.

Lemma watch_loop_returns_once_witness :
  watch_loop Demo.lib Demo.server
    ([watch.emit (watch.Error (Some "etcd: compacted"))] ++
     [watch.emit (watch.Put "token" Demo.record_2030)]) true
  = (Demo.server,
     backoff.Returned
       (Some "could not parse expiration timestamp: timestamp: nil Timestamp")).
Proof.
  exact (watch_loop_returns_once Demo.lib
           [watch.emit (watch.Error (Some "etcd: compacted"))]
           [watch.emit (watch.Put "token" Demo.record_2030)]
           Demo.server Demo.server
           (Some "could not parse expiration timestamp: timestamp: nil Timestamp")
           true eq_refl).
Defined.

(** ** The retry loop over connections that end *)

Lemma watch_loop_closed_returns (L : Lib) (events : list watch.Event) :
  forall a, exists a' r, watch_loop L a events true = (a', backoff.Returned r).
Proof.
  induction events as [|ev events IH]; intros a; simpl.
  - eauto.
  - destruct (handle_event L a ev) as [a1|a1 r1]; [apply IH|eauto].
Qed.

Lemma watch_operation_ended (L : Lib) (c : watch.connection) (a : apiServer) :
  ends c = true ->
  exists a' err,
    watch_operation L a (watch.attempt_of c) = (a', backoff.Returned (Some err)).
Proof.
  intros Hc.
  assert (exists a' r, watch_operation L a (watch.attempt_of c) =
                         (a', backoff.Returned r)) as (a' & r & Hop).
  { destruct c as [err|changes closes]; simpl in *; [eauto|].
    subst closes. apply watch_loop_closed_returns. }
  destruct (watch_operation_fails L c a a' r Hop) as [err ->]. eauto.
Qed.




(** ** One key for the life of the server *)

Lemma server_step_one_key (L : Lib) s s' :
  server_step L s s' ->
  enterpriseToken (fst s') = enterpriseToken (fst s)
  /\ forall k, k <> token_path (fst s) -> snd s' !! k = snd s !! k.
Proof.
  destruct 1 as [a store ev|now commit a store req [resp err] a' store' HA];
    simpl.
  - split; [apply handle_event_cache|reflexivity].
  - destruct (Activate_inv _ _ _ _ _ _ _ _ _ _ HA) as [-> Hout].
    split; [reflexivity|]. intros k Hk. destruct err as [e|].
    + destruct Hout as [_ ->]. reflexivity.
    + destruct Hout as (_ & _ & expiry & ts & _ & _ & ->).
      apply lookup_insert_ne. congruence.
Qed.

Lemma reachable_one_key (L : Lib) s s' :
  rtc (server_step L) s s' ->
  enterpriseToken (fst s') = enterpriseToken (fst s)
  /\ forall k, k <> token_path (fst s) -> snd s' !! k = snd s !! k.
Proof.
  induction 1 as [s|s1 s2 s3 Hstep _ [IHtok IHkeys]]; [auto|].
  destruct (server_step_one_key L s1 s2 Hstep) as [Htok Hkeys].
  split; [congruence|].
  intros k Hk. rewrite IHkeys, Hkeys; [reflexivity|exact Hk|].
  unfold token_path in *. rewrite Htok. exact Hk.
Qed.

(** X15: a server constructed for a prefix keeps its collection for life,
    and whatever events the watch handles and whatever [Activate] calls
    return, the store differs from the store at construction at most at the
    key [token] under that prefix. *)
Theorem server_writes_one_key
    (L : Lib) (dial : error) (etcdAddress etcdPrefix : string)
    (s a : apiServer) (store store' : gmap string EnterpriseRecord) :
  NewEnterpriseServer dial etcdAddress etcdPrefix = (Some s, None) ->
  rtc (server_step L) (s, store) (a, store') ->
  enterpriseToken a = col.NewCollection etcdPrefix
  /\ forall k, k <> etcdPrefix +:+ "/token" -> store' !! k = store !! k.
Proof.
  intros Hnew Hreach.
  assert (Hs : enterpriseToken s = col.NewCollection etcdPrefix).
  { unfold NewEnterpriseServer in Hnew. destruct dial; [discriminate|].
    injection Hnew as <-. reflexivity. }
  destruct (reachable_one_key L _ _ Hreach) as [Htok Hkeys]. simpl in *.
  split; [congruence|].
  intros k Hk. apply Hkeys. unfold token_path. rewrite Hs. exact Hk.
Qed.

Lemma server_writes_one_key_witness :
  (<["/pach/token" := Demo.record_2030]> ∅ : gmap string EnterpriseRecord)
    !! "/pach/other"
  = (∅ : gmap string EnterpriseRecord) !! "/pach/other".
Proof.
  refine (proj2 (server_writes_one_key Demo.lib None "etcd:2379" "/pach"
                   Demo.server Demo.server ∅
                   (<["/pach/token" := Demo.record_2030]> ∅) eq_refl _)
            "/pach/other" _); [|discriminate].
  eapply rtc_l; [|apply rtc_refl].
  apply (step_Activate Demo.lib Demo.t_2018 None Demo.server ∅
           (mkActivateRequest "Y29kZS0yMDMw") (Some mkActivateResponse, None)).
  reflexivity.
Defined.

(** ** Recovery after failures *)

Lemma retry_skips_ended (L : Lib) (failed : list watch.connection) :
  forall (rest : list watch.attempt) (b : backoff.ExponentialBackOff)
         (a : apiServer) (tr : list backoff.effect),
  unbounded b ->
  forallb ends failed = true ->
  exists b' a' tr',
    unbounded b' /\
    backoff.retry (watch_operation L) (watch_notify L) b
      ((watch.attempt_of <$> failed) ++ rest) a tr =
    backoff.retry (watch_operation L) (watch_notify L) b' rest a' tr'.
Proof.
  induction failed as [|c failed IH]; intros rest b a tr Hb Hall.
  - exists b, a, tr. split; [exact Hb|reflexivity].
  - simpl in Hall. apply andb_true_iff in Hall as [Hc Hall].
    destruct (watch_operation_ended L c a Hc) as (a1 & err & Hop).
    rewrite fmap_cons. simpl app.
    rewrite (retry_failed_attempt L b _ _ a a1 err tr Hb Hop).
    apply IH; [exact (proj1 (proj2 (NextBackOff_unbounded b Hb)))|exact Hall].
Qed.

(** X16: the watch recovers without a restart. After any number of
    connections that were refused or closed, a [Put] delivered on the next
    connection reaches the cache: the server then caches the decoded
    expiry of that [Put], whether the channel stays open or closes
    afterwards. *)
Theorem watchEnterpriseToken_recovers
    (L : Lib) (a : apiServer) (failed : list watch.connection)
    (key : string) (record : EnterpriseRecord) (expiry : Time) (closes : bool) :
  forallb ends failed = true ->
  decodes L record expiry ->
  enterpriseExpiry
    (fst (fst (watchEnterpriseToken L a
                 (watch.attempt_of <$>
                    (failed ++ [watch.Established [watch.Put key record] closes])%list))))
  = Some (atomic.of_Time expiry).
Proof.
  intros Hall Hdec. unfold watchEnterpriseToken, backoff.RetryNotify.
  rewrite fmap_app.
  destruct (retry_skips_ended L failed
              (watch.attempt_of <$> [watch.Established [watch.Put key record] closes])
              _ a [] NewInfiniteBackOff_unbounded Hall)
    as (b' & a' & tr' & Hb' & ->).
  assert (Hloop : watch_operation L a'
                    (watch.attempt_of
                       (watch.Established [watch.Put key record] closes)) =
                  watch_loop L
                    (with_enterpriseExpiry a' (Some (atomic.of_Time expiry)))
                    [] closes).
  { exact (watch_loop_Next L a' _ (watch.emit (watch.Put key record)) [] closes
             (handle_event_Put L a' (watch.emit (watch.Put key record)) expiry
                eq_refl Hdec)). }
  change (watch.attempt_of <$> [watch.Established [watch.Put key record] closes])
    with [watch.attempt_of (watch.Established [watch.Put key record] closes)].
  destruct closes.
  - rewrite (retry_failed_attempt L b' _ _ a' _ _ tr' Hb' Hloop).
    reflexivity.
  - cbn [backoff.retry]. rewrite Hloop. reflexivity.
Qed.

Lemma watchEnterpriseToken_recovers_witness :
  enterpriseExpiry
    (fst (fst (watchEnterpriseToken Demo.lib Demo.server
                 (watch.attempt_of <$>
                    ([watch.Refused "connection refused";
                      watch.Established [watch.Error (Some "etcd: compacted")] true]
                     ++ [watch.Established [watch.Put "token" Demo.record_2030]
                           false])%list))))
  = Some (atomic.of_Time Demo.t_2030).
Proof.
  exact (watchEnterpriseToken_recovers Demo.lib Demo.server
           [watch.Refused "connection refused";
            watch.Established [watch.Error (Some "etcd: compacted")] true]
           "token" Demo.record_2030 Demo.t_2030 false eq_refl Demo_decodes_2030).
Defined.
